(** * Saturating subtraction of two [struct timespec] values

    A shallow embedding of [timespec_sub]
    (emacs-30.1/lib/timespec-sub.c, lines 30-66) and the verification of its
    saturation contract.

    Machine integers are mathematical integers ([Z]) together with the C
    integer type they live in.  Execution is monitored: every arithmetic
    step that C does not check is run through [arith] or [convert], which
    stop with a [fault] when the exact result does not fit the type, so that
    "the function returns [Ok r]" means it ran to the end with no undefined
    behaviour and no silent wrap-around. *)

From Stdlib Require Import ZArith Bool Lia QArith.

Local Open Scope Z_scope.

(** ** C integer types *)

Record int_type : Type := Int_type {
  it_signed : bool;   (* is the type signed? *)
  it_bits   : Z       (* width in bits *)
}.

(** Modelled from the spec: the macros [TYPE_SIGNED], [TYPE_MINIMUM] and
    [TYPE_MAXIMUM] come from intprops.h, which is not among the sources;
    the spec calls the last two [SEC_MIN] and [SEC_MAX], "the minimum and
    maximum representable values" of the whole-unit type.  A two's
    complement type of [w] bits ranges over [-2^(w-1), 2^(w-1) - 1], an
    unsigned one over [0, 2^w - 1]; [TYPE_SIGNED] is 1 or 0. *)
Definition TYPE_SIGNED (t : int_type) : Z :=
  if it_signed t then 1 else 0.

Definition TYPE_MINIMUM (t : int_type) : Z :=
  if it_signed t then - 2 ^ (it_bits t - 1) else 0.

Definition TYPE_MAXIMUM (t : int_type) : Z :=
  if it_signed t then 2 ^ (it_bits t - 1) - 1 else 2 ^ it_bits t - 1.

Definition in_range (t : int_type) (z : Z) : bool :=
  (TYPE_MINIMUM t <=? z) && (z <=? TYPE_MAXIMUM t).

(** Reduction of an exact result modulo [2^w] into the range of the type:
    what a checked operation stores when it reports an overflow. *)
Definition wrap (t : int_type) (z : Z) : Z :=
  if it_signed t
  then (z + 2 ^ (it_bits t - 1)) mod 2 ^ it_bits t - 2 ^ (it_bits t - 1)
  else z mod 2 ^ it_bits t.

(** [int] and [long int] of an LP64 platform. *)
Definition int_t : int_type := Int_type true 32.
Definition long_t : int_type := Int_type true 64.

(** ** Monitored execution *)

Inductive fault : Type :=
| Undefined_behaviour   (* overflow of unchecked signed arithmetic *)
| Silent_wraparound.    (* unsigned arithmetic or a conversion that wraps *)

Inductive outcome (A : Type) : Type :=
| Ok (a : A)
| Fault (f : fault).

Arguments Ok {A} a.
Arguments Fault {A} f.

Definition bind {A B : Type} (m : outcome A) (k : A -> outcome B) : outcome B :=
  match m with
  | Ok a => k a
  | Fault f => Fault f
  end.

Notation "x <- m ;; k" := (bind m (fun x => k))
  (at level 61, m at next level, right associativity).

(** An unchecked arithmetic operation whose exact result is [z], carried
    out in type [t]. *)
Definition arith (t : int_type) (z : Z) : outcome Z :=
  if in_range t z then Ok z
  else Fault (if it_signed t then Undefined_behaviour else Silent_wraparound).

(** Conversion of the value [z] to type [t] (initialisation, argument
    passing). *)
Definition convert (t : int_type) (z : Z) : outcome Z :=
  if in_range t z then Ok z else Fault Silent_wraparound.

(** The checked operations of <stdckdint.h>: the wrapped result and the
    overflow flag. *)
Definition ckd_add (t : int_type) (a b : Z) : Z * bool :=
  (wrap t (a + b), negb (in_range t (a + b))).

Definition ckd_sub (t : int_type) (a b : Z) : Z * bool :=
  (wrap t (a - b), negb (in_range t (a - b))).

(** ** The timespec structure *)

Record timespec : Type := Timespec {
  tv_sec  : Z;    (* time_t *)
  tv_nsec : Z     (* long int *)
}.

(** Modelled from the spec: [make_timespec] is an inline function of
    timespec.h, which is not among the sources; the spec gives the result
    of the last step as the pair "{ rs, rns }".  Its second parameter is a
    [long int]. *)
Definition make_timespec (s ns : Z) : outcome timespec :=
  ns' <- convert long_t ns ;;
  Ok (Timespec s ns').

Section Timespec_sub.

(** The platform's [time_t], and [TIMESPEC_HZ], the number of sub-second
    units per second (an enumeration constant of timespec.h, hence an
    [int]; 1000000000 there). *)
Variable time_t : int_type.
Variable TIMESPEC_HZ : Z.

Definition SEC_MIN : Z := TYPE_MINIMUM time_t.
Definition SEC_MAX : Z := TYPE_MAXIMUM time_t.

(** What the routine assumes of its arguments: [tv_sec] is a [time_t]
    and [0 <= tv_nsec < TIMESPEC_HZ]. *)
Definition valid_timespec (x : timespec) : bool :=
  in_range time_t (tv_sec x) && (0 <=? tv_nsec x) && (tv_nsec x <? TIMESPEC_HZ).

(** Where control is after the borrow step (lines 33-48): at the checked
    subtraction of line 50 with the locals [rs], [bs], [rns], or at the
    label [low_overflow]. *)
Inductive control : Type :=
| Fallthrough (rs bs rns : Z)
| Goto_low_overflow.

(** Lines 33-48. *)
Definition borrow_step (a b : timespec) : outcome control :=
  let rs := tv_sec a in
  let bs := tv_sec b in
  d <- arith long_t (tv_nsec a - tv_nsec b) ;;
  ns <- convert int_t d ;;
  if ns <? 0 then
    rns <- arith int_t (ns + TIMESPEC_HZ) ;;
    let (bs1, overflow) := ckd_add time_t bs 1 in
    if negb overflow then Ok (Fallthrough rs bs1 rns)
    else if - TYPE_SIGNED time_t <? rs then
      rs' <- arith time_t (rs - 1) ;;
      Ok (Fallthrough rs' bs rns)
    else Ok Goto_low_overflow
  else Ok (Fallthrough rs bs ns).

(** Lines 54-56 and 60-61: the two extremal results. *)
Definition low_overflow : outcome timespec :=
  make_timespec (TYPE_MINIMUM time_t) 0.

Definition high_overflow : outcome timespec :=
  m <- arith int_t (TIMESPEC_HZ - 1) ;;
  make_timespec (TYPE_MAXIMUM time_t) m.

(** Lines 52-62: which extremal value an overflow of line 50 gives. *)
Definition overflow_clamp (bs : Z) : outcome timespec :=
  if 0 <? bs then low_overflow else high_overflow.

(** Lines 50-65. *)
Definition saturate (c : control) : outcome timespec :=
  match c with
  | Fallthrough rs bs rns =>
      let (rs', overflow) := ckd_sub time_t rs bs in
      if overflow then overflow_clamp bs
      else make_timespec rs' rns
  | Goto_low_overflow => low_overflow
  end.

Definition timespec_sub (a b : timespec) : outcome timespec :=
  c <- borrow_step a b ;;
  saturate c.

(** ** The mathematical side *)

(** The true value of a time point, [seconds + subsecondUnits / HZ]. *)
Definition value (x : timespec) : Q :=
  (inject_Z (tv_sec x) + inject_Z (tv_nsec x) / inject_Z TIMESPEC_HZ)%Q.

(** The same value counted in sub-second units: [HZ] times [value]. *)
Definition units (x : timespec) : Z :=
  tv_sec x * TIMESPEC_HZ + tv_nsec x.

(** The two extremal time points. *)
Definition timespec_min : timespec := Timespec SEC_MIN 0.
Definition timespec_max : timespec := Timespec SEC_MAX (TIMESPEC_HZ - 1).

(** The difference of [a] and [b], saturated: the reference that
    [timespec_sub] is compared with. *)
Definition saturated_difference (a b : timespec) : timespec :=
  let d := units a - units b in
  if d / TIMESPEC_HZ <? SEC_MIN then timespec_min
  else if SEC_MAX <? d / TIMESPEC_HZ then timespec_max
  else Timespec (d / TIMESPEC_HZ) (d mod TIMESPEC_HZ).

End Timespec_sub.

(** A 64-bit signed [time_t], one of 64 bits without sign, and the
    resolution of timespec.h. *)
Definition time64 : int_type := Int_type true 64.
Definition utime64 : int_type := Int_type false 64.
Definition NSEC_HZ : Z := 1000000000.

(** * Properties *)

(** ** Integer types *)

Lemma pow2_half (w : Z) :
  8 <= w -> 2 ^ w = 2 * 2 ^ (w - 1) /\ 128 <= 2 ^ (w - 1).
Proof.
  intros Hw. split.
  - rewrite <- Z.pow_succ_r by lia. f_equal. lia.
  - change 128 with (2 ^ 7). apply Z.pow_le_mono_r; lia.
Qed.

Lemma in_range_iff (t : int_type) (z : Z) :
  in_range t z = true <-> TYPE_MINIMUM t <= z <= TYPE_MAXIMUM t.
Proof. unfold in_range. rewrite andb_true_iff, !Z.leb_le. tauto. Qed.

Lemma in_range_false_iff (t : int_type) (z : Z) :
  in_range t z = false <-> z < TYPE_MINIMUM t \/ TYPE_MAXIMUM t < z.
Proof. unfold in_range. rewrite andb_false_iff, !Z.leb_gt. tauto. Qed.

(** The shape of an integer type of at least eight bits. *)
Lemma type_shape (t : int_type) :
  8 <= it_bits t ->
  (TYPE_SIGNED t = 1 /\ TYPE_MINIMUM t = - TYPE_MAXIMUM t - 1
   /\ 127 <= TYPE_MAXIMUM t)
  \/ (TYPE_SIGNED t = 0 /\ TYPE_MINIMUM t = 0 /\ 255 <= TYPE_MAXIMUM t).
Proof.
  intros Hw. destruct (pow2_half _ Hw) as [H2 H128].
  unfold TYPE_SIGNED, TYPE_MINIMUM, TYPE_MAXIMUM.
  destruct (it_signed t); [left | right]; lia.
Qed.

Lemma wrap_in_range (t : int_type) (z : Z) :
  8 <= it_bits t -> in_range t z = true -> wrap t z = z.
Proof.
  intros Hw Hz. apply in_range_iff in Hz.
  destruct (pow2_half _ Hw) as [H2 H128].
  revert Hz. unfold wrap, TYPE_MINIMUM, TYPE_MAXIMUM.
  destruct (it_signed t); intros Hz; rewrite Z.mod_small; lia.
Qed.

Lemma arith_in_range (t : int_type) (z : Z) :
  in_range t z = true -> arith t z = Ok z.
Proof. intros H. unfold arith. now rewrite H. Qed.

Lemma convert_in_range (t : int_type) (z : Z) :
  in_range t z = true -> convert t z = Ok z.
Proof. intros H. unfold convert. now rewrite H. Qed.

Lemma ckd_add_exact (t : int_type) (a b : Z) :
  8 <= it_bits t -> in_range t (a + b) = true ->
  ckd_add t a b = (a + b, false).
Proof.
  intros Hw H. unfold ckd_add. now rewrite wrap_in_range, H.
Qed.

Lemma ckd_sub_exact (t : int_type) (a b : Z) :
  8 <= it_bits t -> in_range t (a - b) = true ->
  ckd_sub t a b = (a - b, false).
Proof.
  intros Hw H. unfold ckd_sub. now rewrite wrap_in_range, H.
Qed.

Lemma ckd_add_overflow (t : int_type) (a b : Z) :
  snd (ckd_add t a b) = true <-> in_range t (a + b) = false.
Proof. unfold ckd_add; simpl. now rewrite negb_true_iff. Qed.

Lemma ckd_sub_overflow (t : int_type) (a b : Z) :
  snd (ckd_sub t a b) = true <-> in_range t (a - b) = false.
Proof. unfold ckd_sub; simpl. now rewrite negb_true_iff. Qed.

Lemma int_range (z : Z) :
  in_range int_t z = true <-> - 2147483648 <= z <= 2147483647.
Proof. rewrite in_range_iff. reflexivity. Qed.

Lemma long_range (z : Z) :
  in_range long_t z = true
  <-> - 9223372036854775808 <= z <= 9223372036854775807.
Proof. rewrite in_range_iff. reflexivity. Qed.

Lemma make_timespec_int (s ns : Z) :
  in_range int_t ns = true -> make_timespec s ns = Ok (Timespec s ns).
Proof.
  intros H. apply int_range in H. unfold make_timespec.
  rewrite convert_in_range; [reflexivity | apply long_range; lia].
Qed.

(** ** The two stages of [timespec_sub] on valid arguments *)

Section Verification.

Variable time_t : int_type.
Variable HZ : Z.

(** Every C integer type has at least eight bits, and [TIMESPEC_HZ] is an
    [int] constant. *)
Hypothesis time_t_bits : 8 <= it_bits time_t.
Hypothesis HZ_int : in_range int_t HZ = true.

Local Abbreviation valid := (valid_timespec time_t HZ).
Local Abbreviation MIN := (TYPE_MINIMUM time_t).
Local Abbreviation MAX := (TYPE_MAXIMUM time_t).

Lemma valid_timespec_iff (x : timespec) :
  valid x = true
  <-> MIN <= tv_sec x <= MAX /\ 0 <= tv_nsec x < HZ.
Proof.
  unfold valid_timespec.
  rewrite !andb_true_iff, in_range_iff, Z.leb_le, Z.ltb_lt. tauto.
Qed.

Lemma low_overflow_eq :
  low_overflow time_t = Ok (timespec_min time_t).
Proof. reflexivity. Qed.

Lemma high_overflow_eq :
  0 < HZ -> high_overflow time_t HZ = Ok (timespec_max time_t HZ).
Proof.
  intros Hpos. pose proof (proj1 (int_range _) HZ_int) as Hz.
  assert (Hm : in_range int_t (HZ - 1) = true) by (apply int_range; lia).
  unfold high_overflow. rewrite (arith_in_range _ _ Hm). cbn [bind].
  now rewrite (make_timespec_int _ _ Hm).
Qed.

(** Lines 33-37, no borrow. *)
Lemma borrow_step_none (a b : timespec) :
  valid a = true -> valid b = true -> tv_nsec b <= tv_nsec a ->
  borrow_step time_t HZ a b
  = Ok (Fallthrough (tv_sec a) (tv_sec b) (tv_nsec a - tv_nsec b)).
Proof.
  intros Ha Hb Hle.
  apply valid_timespec_iff in Ha, Hb.
  pose proof (proj1 (int_range _) HZ_int) as Hz.
  unfold borrow_step.
  rewrite arith_in_range by (apply long_range; lia). cbn [bind].
  rewrite convert_in_range by (apply int_range; lia). cbn [bind].
  destruct (Z.ltb_spec (tv_nsec a - tv_nsec b) 0); [lia | reflexivity].
Qed.

(** Lines 38-48, in full: the three ways of the borrow. *)
Lemma borrow_step_borrow (a b : timespec) :
  valid a = true -> valid b = true -> tv_nsec a < tv_nsec b ->
  borrow_step time_t HZ a b
  = Ok (if tv_sec b <? MAX
        then Fallthrough (tv_sec a) (tv_sec b + 1)
               (tv_nsec a - tv_nsec b + HZ)
        else if - TYPE_SIGNED time_t <? tv_sec a
        then Fallthrough (tv_sec a - 1) (tv_sec b)
               (tv_nsec a - tv_nsec b + HZ)
        else Goto_low_overflow).
Proof.
  intros Ha Hb Hlt.
  apply valid_timespec_iff in Ha, Hb.
  pose proof (proj1 (int_range _) HZ_int) as Hz.
  unfold borrow_step.
  rewrite arith_in_range by (apply long_range; lia). cbn [bind].
  rewrite convert_in_range by (apply int_range; lia). cbn [bind].
  destruct (Z.ltb_spec (tv_nsec a - tv_nsec b) 0); [| lia].
  rewrite arith_in_range by (apply int_range; lia). cbn [bind].
  destruct (Z.ltb_spec (tv_sec b) MAX) as [Hb1 | Hb1].
  - rewrite ckd_add_exact by (trivial; apply in_range_iff; lia).
    reflexivity.
  - assert (Hov : in_range time_t (tv_sec b + 1) = false)
      by (apply in_range_false_iff; lia).
    unfold ckd_add. rewrite Hov. cbn [negb].
    destruct (Z.ltb_spec (- TYPE_SIGNED time_t) (tv_sec a)) as [Hs | Hs];
      [| reflexivity].
    rewrite arith_in_range; [reflexivity |].
    apply in_range_iff.
    destruct (type_shape _ time_t_bits) as [(S1 & M1 & M2) | (S1 & M1 & M2)];
      lia.
Qed.

(** Lines 50-65 when the subtraction fits. *)
Lemma saturate_exact (rs bs rns : Z) :
  in_range time_t (rs - bs) = true -> in_range int_t rns = true ->
  saturate time_t HZ (Fallthrough rs bs rns) = Ok (Timespec (rs - bs) rns).
Proof.
  intros Hr Hn. unfold saturate.
  rewrite ckd_sub_exact by trivial.
  now apply make_timespec_int.
Qed.

(** Lines 50-62 when it does not. *)
Lemma saturate_overflow (rs bs rns : Z) :
  in_range time_t (rs - bs) = false ->
  saturate time_t HZ (Fallthrough rs bs rns) = overflow_clamp time_t HZ bs.
Proof.
  intros Hr. unfold saturate, ckd_sub. now rewrite Hr.
Qed.

(** ** The saturation contract *)

Lemma units_difference (a b : timespec) :
  units HZ a - units HZ b
  = (tv_sec a - tv_sec b) * HZ + (tv_nsec a - tv_nsec b).
Proof. unfold units. ring. Qed.

Lemma div_mod_decomposed (q r : Z) :
  0 <= r < HZ -> (q * HZ + r) / HZ = q /\ (q * HZ + r) mod HZ = r.
Proof.
  intros Hr. split; symmetry.
  - apply Z.div_unique with r; [lia | ring].
  - apply Z.mod_unique with q; [lia | ring].
Qed.

(** Seconds and sub-second part of the exact difference, normalised. *)
Lemma difference_normalised (a b : timespec) :
  valid a = true -> valid b = true ->
  let d := units HZ a - units HZ b in
  if tv_nsec a <? tv_nsec b
  then d / HZ = tv_sec a - tv_sec b - 1
       /\ d mod HZ = tv_nsec a - tv_nsec b + HZ
  else d / HZ = tv_sec a - tv_sec b
       /\ d mod HZ = tv_nsec a - tv_nsec b.
Proof.
  intros Ha Hb d. apply valid_timespec_iff in Ha, Hb.
  subst d. rewrite units_difference.
  destruct (Z.ltb_spec (tv_nsec a) (tv_nsec b)).
  - replace ((tv_sec a - tv_sec b) * HZ + (tv_nsec a - tv_nsec b))
      with ((tv_sec a - tv_sec b - 1) * HZ + (tv_nsec a - tv_nsec b + HZ))
      by ring.
    apply div_mod_decomposed. lia.
  - apply div_mod_decomposed. lia.
Qed.

(** On valid arguments [timespec_sub] runs to the end and returns the
    saturated difference. *)
Lemma timespec_sub_saturates (a b : timespec) :
  valid a = true -> valid b = true ->
  timespec_sub time_t HZ a b = Ok (saturated_difference time_t HZ a b).
Proof.
  intros Ha Hb.
  pose proof (difference_normalised a b Ha Hb) as Hd. cbv zeta in Hd.
  pose proof (proj1 (valid_timespec_iff a) Ha) as [Has Han].
  pose proof (proj1 (valid_timespec_iff b) Hb) as [Hbs Hbn].
  pose proof (proj1 (int_range _) HZ_int) as Hz.
  assert (Hpos : 0 < HZ) by lia.
  unfold timespec_sub, saturated_difference, SEC_MIN, SEC_MAX.
  destruct (Z.ltb_spec (tv_nsec a) (tv_nsec b)) as [Hlt | Hge];
    destruct Hd as [Hq Hr]; rewrite Hq, Hr.
  - rewrite borrow_step_borrow by trivial. cbn [bind].
    destruct (Z.ltb_spec (tv_sec b) MAX) as [Hb1 | Hb1].
    + destruct (Z.ltb_spec (tv_sec a - tv_sec b - 1) MIN) as [Hlo | Hlo].
      * rewrite saturate_overflow by (apply in_range_false_iff; lia).
        unfold overflow_clamp.
        destruct (Z.ltb_spec 0 (tv_sec b + 1)); [apply low_overflow_eq | lia].
      * destruct (Z.ltb_spec MAX (tv_sec a - tv_sec b - 1)) as [Hhi | Hhi].
        -- rewrite saturate_overflow by (apply in_range_false_iff; lia).
           unfold overflow_clamp.
           destruct (Z.ltb_spec 0 (tv_sec b + 1));
             [lia | now apply high_overflow_eq].
        -- rewrite saturate_exact;
             [f_equal; f_equal; ring | apply in_range_iff; lia
             | apply int_range; lia].
    + assert (Hbm : tv_sec b = MAX) by lia.
      destruct (Z.ltb_spec (- TYPE_SIGNED time_t) (tv_sec a)) as [Hs | Hs];
        destruct (Z.ltb_spec (tv_sec a - tv_sec b - 1) MIN) as [Hlo | Hlo].
      * rewrite saturate_overflow by (apply in_range_false_iff; lia).
        unfold overflow_clamp.
        destruct (Z.ltb_spec 0 (tv_sec b)); [apply low_overflow_eq |].
        destruct (type_shape _ time_t_bits) as [(S1 & M1 & M2) | (S1 & M1 & M2)];
          lia.
      * destruct (Z.ltb_spec MAX (tv_sec a - tv_sec b - 1)) as [Hhi | Hhi];
          [destruct (type_shape _ time_t_bits)
             as [(S1 & M1 & M2) | (S1 & M1 & M2)]; lia |].
        rewrite saturate_exact;
          [f_equal; f_equal; ring | apply in_range_iff; lia
          | apply int_range; lia].
      * cbn [saturate]. apply low_overflow_eq.
      * destruct (type_shape _ time_t_bits) as [(S1 & M1 & M2) | (S1 & M1 & M2)];
          lia.
  - rewrite borrow_step_none by trivial. cbn [bind].
    destruct (Z.ltb_spec (tv_sec a - tv_sec b) MIN) as [Hlo | Hlo].
    + rewrite saturate_overflow by (apply in_range_false_iff; lia).
      unfold overflow_clamp.
      destruct (Z.ltb_spec 0 (tv_sec b)); [apply low_overflow_eq | lia].
    + destruct (Z.ltb_spec MAX (tv_sec a - tv_sec b)) as [Hhi | Hhi].
      * rewrite saturate_overflow by (apply in_range_false_iff; lia).
        unfold overflow_clamp.
        destruct (Z.ltb_spec 0 (tv_sec b)); [lia | now apply high_overflow_eq].
      * apply saturate_exact;
          [apply in_range_iff; lia | apply int_range; lia].
Qed.

(** ** Rational values and sub-second units *)

Lemma value_scaled (x : timespec) :
  0 < HZ -> (value HZ x * inject_Z HZ == inject_Z (units HZ x))%Q.
Proof.
  intros Hpos. unfold value, units.
  rewrite inject_Z_plus, inject_Z_mult. field.
  intros H0. unfold Qeq in H0. simpl in H0. lia.
Qed.

Lemma difference_scaled (a b : timespec) :
  0 < HZ ->
  ((value HZ a - value HZ b) * inject_Z HZ
   == inject_Z (units HZ a - units HZ b))%Q.
Proof.
  intros Hpos. unfold Z.sub at 1.
  rewrite inject_Z_plus, inject_Z_opp, <- !value_scaled by trivial. ring.
Qed.

Lemma HZ_positive_Q : 0 < HZ -> (0 < inject_Z HZ)%Q.
Proof. intros H. change 0%Q with (inject_Z 0). now rewrite <- Zlt_Qlt. Qed.

Lemma value_eq_units (a b r : timespec) :
  0 < HZ ->
  (value HZ r == value HZ a - value HZ b)%Q ->
  units HZ r = units HZ a - units HZ b.
Proof.
  intros Hpos H. apply inject_Z_injective.
  rewrite <- difference_scaled, <- value_scaled by trivial.
  now rewrite H.
Qed.

Lemma value_lt_units (a b x : timespec) :
  0 < HZ ->
  (value HZ a - value HZ b < value HZ x)%Q ->
  units HZ a - units HZ b < units HZ x.
Proof.
  intros Hpos H. rewrite Zlt_Qlt.
  rewrite <- difference_scaled, <- value_scaled by trivial.
  apply Qmult_lt_r; [now apply HZ_positive_Q | exact H].
Qed.

Lemma value_gt_units (a b x : timespec) :
  0 < HZ ->
  (value HZ x < value HZ a - value HZ b)%Q ->
  units HZ x < units HZ a - units HZ b.
Proof.
  intros Hpos H. rewrite Zlt_Qlt.
  rewrite <- difference_scaled, <- value_scaled by trivial.
  apply Qmult_lt_r; [now apply HZ_positive_Q | exact H].
Qed.

(** ** Shared consequences of the contract *)

Lemma minimum_le_maximum : MIN <= MAX.
Proof.
  destruct (type_shape _ time_t_bits) as [(S1 & M1 & M2) | (S1 & M1 & M2)];
    lia.
Qed.

Lemma small_values_in_range (z : Z) :
  0 <= z <= 127 -> in_range time_t z = true.
Proof.
  intros Hz. apply in_range_iff.
  destruct (type_shape _ time_t_bits) as [(S1 & M1 & M2) | (S1 & M1 & M2)];
    lia.
Qed.

Lemma saturated_difference_valid (a b : timespec) :
  0 < HZ -> valid (saturated_difference time_t HZ a b) = true.
Proof.
  intros Hpos. pose proof minimum_le_maximum as Hmm.
  unfold saturated_difference, SEC_MIN, SEC_MAX.
  set (d := units HZ a - units HZ b).
  pose proof (Z.mod_pos_bound d HZ Hpos) as Hmod.
  destruct (Z.ltb_spec (d / HZ) MIN);
    [| destruct (Z.ltb_spec MAX (d / HZ))];
    apply valid_timespec_iff; unfold timespec_min, timespec_max, SEC_MIN,
      SEC_MAX; simpl; lia.
Qed.

Lemma saturated_difference_exact (a b r : timespec) :
  valid r = true -> units HZ r = units HZ a - units HZ b ->
  saturated_difference time_t HZ a b = r.
Proof.
  intros Hr Hu. apply valid_timespec_iff in Hr. destruct Hr as [Hs Hn].
  unfold saturated_difference. rewrite <- Hu. unfold units.
  destruct (div_mod_decomposed (tv_sec r) (tv_nsec r) Hn) as [Hq Hm].
  rewrite Hq, Hm. unfold SEC_MIN, SEC_MAX.
  destruct (Z.ltb_spec (tv_sec r) MIN); [lia |].
  destruct (Z.ltb_spec MAX (tv_sec r)); [lia |].
  now destruct r.
Qed.

Lemma saturated_difference_low (a b : timespec) :
  0 < HZ -> units HZ a - units HZ b < units HZ (timespec_min time_t) ->
  saturated_difference time_t HZ a b = timespec_min time_t.
Proof.
  intros Hpos Hu. unfold saturated_difference.
  unfold units at 3 in Hu. simpl in Hu.
  assert (Hq : (units HZ a - units HZ b) / HZ < SEC_MIN time_t)
    by (apply Z.div_lt_upper_bound; lia).
  destruct (Z.ltb_spec ((units HZ a - units HZ b) / HZ) (SEC_MIN time_t));
    [reflexivity | lia].
Qed.

Lemma saturated_difference_high (a b : timespec) :
  0 < HZ -> units HZ (timespec_max time_t HZ) < units HZ a - units HZ b ->
  saturated_difference time_t HZ a b = timespec_max time_t HZ.
Proof.
  intros Hpos Hu. pose proof minimum_le_maximum as Hmm.
  unfold saturated_difference.
  unfold units at 1 in Hu. simpl in Hu.
  assert (Hq : SEC_MAX time_t + 1 <= (units HZ a - units HZ b) / HZ)
    by (apply Z.div_le_lower_bound; lia).
  unfold SEC_MIN, SEC_MAX in *.
  destruct (Z.ltb_spec ((units HZ a - units HZ b) / HZ) MIN); [lia |].
  destruct (Z.ltb_spec MAX ((units HZ a - units HZ b) / HZ));
    [reflexivity | lia].
Qed.

Lemma valid_HZ_positive (x : timespec) : valid x = true -> 0 < HZ.
Proof. intros H. apply valid_timespec_iff in H. lia. Qed.

(** ** The claims *)

(** C1: for valid time points [a] and [b], when the true difference
    [value a - value b] is the value of a valid time point [r] (seconds in
    [SEC_MIN, SEC_MAX], sub-second part in [0, HZ)), [timespec_sub a b]
    returns exactly [r]; in particular, with [HZ = 1000], subtracting
    [{3, 200}] from [{5, 100}] yields [{1, 900}]. *)
Theorem timespec_sub_exact_in_range :
  (forall a b r : timespec,
      valid a = true -> valid b = true -> valid r = true ->
      (value HZ r == value HZ a - value HZ b)%Q ->
      timespec_sub time_t HZ a b = Ok r)
  /\ (HZ = 1000 ->
      timespec_sub time_t HZ (Timespec 5 100) (Timespec 3 200)
      = Ok (Timespec 1 900)).
Proof.
  assert (General : forall a b r : timespec,
      valid a = true -> valid b = true -> valid r = true ->
      units HZ r = units HZ a - units HZ b ->
      timespec_sub time_t HZ a b = Ok r).
  { intros a b r Ha Hb Hr Hu.
    rewrite timespec_sub_saturates by trivial.
    f_equal. now apply saturated_difference_exact. }
  split.
  - intros a b r Ha Hb Hr Hv. apply General; trivial.
    apply value_eq_units; trivial. exact (valid_HZ_positive _ Ha).
  - intros Hhz. apply General.
    + apply valid_timespec_iff. cbn [tv_sec tv_nsec].
      pose proof (proj1 (in_range_iff _ _) (small_values_in_range 5 ltac:(lia))).
      lia.
    + apply valid_timespec_iff. cbn [tv_sec tv_nsec].
      pose proof (proj1 (in_range_iff _ _) (small_values_in_range 3 ltac:(lia))).
      lia.
    + apply valid_timespec_iff. cbn [tv_sec tv_nsec].
      pose proof (proj1 (in_range_iff _ _) (small_values_in_range 1 ltac:(lia))).
      lia.
    + unfold units. cbn [tv_sec tv_nsec]. lia.
Qed.

(** C2: for valid [a] and [b], when the true difference is smaller than
    the smallest representable value (its seconds would be below
    [SEC_MIN]), [timespec_sub a b] returns [{SEC_MIN, 0}]; in particular
    [timespec_sub {SEC_MIN, 0} {1, 0} = {SEC_MIN, 0}]. *)
Theorem timespec_sub_clamps_low :
  (forall a b : timespec,
      valid a = true -> valid b = true ->
      (value HZ a - value HZ b < value HZ (timespec_min time_t))%Q ->
      timespec_sub time_t HZ a b = Ok (Timespec (SEC_MIN time_t) 0))
  /\ timespec_sub time_t HZ (Timespec (SEC_MIN time_t) 0) (Timespec 1 0)
     = Ok (Timespec (SEC_MIN time_t) 0).
Proof.
  split.
  - intros a b Ha Hb Hv.
    pose proof (valid_HZ_positive _ Ha) as Hpos.
    rewrite timespec_sub_saturates by trivial. f_equal.
    apply saturated_difference_low; trivial.
    now apply value_lt_units.
  - assert (Hstep : borrow_step time_t HZ
                      (Timespec (SEC_MIN time_t) 0) (Timespec 1 0)
                    = Ok (Fallthrough (SEC_MIN time_t) 1 0))
      by reflexivity.
    unfold timespec_sub. rewrite Hstep. cbn [bind].
    rewrite saturate_overflow
      by (apply in_range_false_iff; unfold SEC_MIN; lia).
    reflexivity.
Qed.

(** C3: for valid [a] and [b], when the true difference is larger than
    the largest representable value (its seconds would exceed [SEC_MAX]),
    [timespec_sub a b] returns [{SEC_MAX, HZ - 1}]; in particular, [time_t]
    being signed, [timespec_sub {SEC_MAX, HZ-1} {-1, 0} = {SEC_MAX, HZ-1}]. *)
Theorem timespec_sub_clamps_high :
  (forall a b : timespec,
      valid a = true -> valid b = true ->
      (value HZ (timespec_max time_t HZ) < value HZ a - value HZ b)%Q ->
      timespec_sub time_t HZ a b = Ok (Timespec (SEC_MAX time_t) (HZ - 1)))
  /\ (it_signed time_t = true -> 0 < HZ ->
      timespec_sub time_t HZ
        (Timespec (SEC_MAX time_t) (HZ - 1)) (Timespec (-1) 0)
      = Ok (Timespec (SEC_MAX time_t) (HZ - 1))).
Proof.
  split.
  - intros a b Ha Hb Hv.
    pose proof (valid_HZ_positive _ Ha) as Hpos.
    rewrite timespec_sub_saturates by trivial. f_equal.
    apply saturated_difference_high; trivial.
    now apply value_gt_units.
  - intros Hsigned Hpos.
    assert (Hm1 : MIN <= -1 /\ 0 <= MAX).
    { destruct (type_shape _ time_t_bits) as [(S1 & M1 & M2) | (S1 & M1 & M2)];
        [lia |].
      unfold TYPE_SIGNED in S1. rewrite Hsigned in S1. discriminate. }
    unfold timespec_sub.
    rewrite borrow_step_none;
      [| apply valid_timespec_iff; unfold SEC_MAX; cbn [tv_sec tv_nsec]; lia
       | apply valid_timespec_iff; cbn [tv_sec tv_nsec]; lia
       | cbn [tv_sec tv_nsec]; lia].
    cbn [bind tv_sec tv_nsec].
    rewrite saturate_overflow
      by (apply in_range_false_iff; unfold SEC_MAX; lia).
    unfold overflow_clamp.
    destruct (Z.ltb_spec 0 (-1)); [lia | now apply high_overflow_eq].
Qed.

(** C4: for all time points [a] and [b] with [tv_nsec] in [0, HZ) (and
    [tv_sec] a [time_t]), [timespec_sub a b] returns a time point with
    [tv_nsec] in [0, HZ) (and [tv_sec] a [time_t]): the operation is closed
    over valid time points. *)
Theorem timespec_sub_preserves_validity (a b : timespec) :
  valid a = true -> valid b = true ->
  exists r : timespec,
    timespec_sub time_t HZ a b = Ok r
    /\ valid r = true
    /\ 0 <= tv_nsec r < HZ.
Proof.
  intros Ha Hb. exists (saturated_difference time_t HZ a b).
  pose proof (saturated_difference_valid a b (valid_HZ_positive _ Ha)) as Hv.
  split; [now apply timespec_sub_saturates | split; [exact Hv |]].
  now apply valid_timespec_iff in Hv.
Qed.

(** C5 (as amended): when the raw sub-unit difference is negative and
    incrementing the subtrahend's seconds overflows, the minuend's seconds
    are decremented whenever they are strictly greater than
    [- TYPE_SIGNED (time_t)] (that is -1 when [time_t] is signed), and
    otherwise control goes straight to [low_overflow] and the result is
    [{SEC_MIN, 0}]. *)
Theorem borrow_overflow_branches (a b : timespec) :
  valid a = true -> valid b = true ->
  tv_nsec a - tv_nsec b < 0 ->
  snd (ckd_add time_t (tv_sec b) 1) = true ->
  (- TYPE_SIGNED time_t < tv_sec a ->
   borrow_step time_t HZ a b
   = Ok (Fallthrough (tv_sec a - 1) (tv_sec b)
           (tv_nsec a - tv_nsec b + HZ)))
  /\ (tv_sec a <= - TYPE_SIGNED time_t ->
      borrow_step time_t HZ a b = Ok Goto_low_overflow
      /\ timespec_sub time_t HZ a b = Ok (Timespec (SEC_MIN time_t) 0)).
Proof.
  intros Ha Hb Hns Hov.
  apply ckd_add_overflow, in_range_false_iff in Hov.
  pose proof (proj1 (valid_timespec_iff b) Hb) as [Hbs Hbn].
  pose proof (borrow_step_borrow a b Ha Hb ltac:(lia)) as Hstep.
  destruct (Z.ltb_spec (tv_sec b) MAX); [lia |].
  split.
  - intros Hs. rewrite Hstep.
    destruct (Z.ltb_spec (- TYPE_SIGNED time_t) (tv_sec a));
      [reflexivity | lia].
  - intros Hs.
    assert (Hlow : borrow_step time_t HZ a b = Ok Goto_low_overflow).
    { rewrite Hstep.
      destruct (Z.ltb_spec (- TYPE_SIGNED time_t) (tv_sec a));
        [lia | reflexivity]. }
    split; [exact Hlow |].
    unfold timespec_sub. rewrite Hlow. reflexivity.
Qed.

(** C6: when the checked subtraction of line 50 overflows, the sign of the
    adjusted subtrahend seconds [bs] decides the direction: strictly
    positive gives the low clamp [{SEC_MIN, 0}], anything else the high
    clamp [{SEC_MAX, HZ - 1}]; the branch taken on overflow sends [bs = 0]
    to the high clamp. *)
Theorem overflow_direction_by_subtrahend_sign (a b : timespec) (rs bs rns : Z) :
  valid a = true -> valid b = true ->
  borrow_step time_t HZ a b = Ok (Fallthrough rs bs rns) ->
  snd (ckd_sub time_t rs bs) = true ->
  (0 < bs ->
   timespec_sub time_t HZ a b = Ok (Timespec (SEC_MIN time_t) 0))
  /\ (bs <= 0 ->
      timespec_sub time_t HZ a b
      = Ok (Timespec (SEC_MAX time_t) (HZ - 1)))
  /\ overflow_clamp time_t HZ 0 = Ok (Timespec (SEC_MAX time_t) (HZ - 1)).
Proof.
  intros Ha Hb Hstep Hov.
  pose proof (valid_HZ_positive _ Ha) as Hpos.
  apply ckd_sub_overflow in Hov.
  unfold timespec_sub. rewrite Hstep. cbn [bind].
  rewrite saturate_overflow by trivial.
  unfold overflow_clamp. repeat split.
  - intros Hbs. destruct (Z.ltb_spec 0 bs); [reflexivity | lia].
  - intros Hbs. destruct (Z.ltb_spec 0 bs);
      [lia | now apply high_overflow_eq].
  - now apply high_overflow_eq.
Qed.

(** C7: a subtraction of line 50 that lands exactly on [SEC_MIN] or
    [SEC_MAX] does not report overflow, and its result is returned with
    the sub-second part as computed; [timespec_sub {SEC_MIN + 1, 0} {1, 0}]
    is [{SEC_MIN, 0}], reached without overflow, and
    [timespec_sub {SEC_MIN + 2, 0} {1, 0}] is [{SEC_MIN + 1, 0}]. *)
Theorem boundary_results_not_clamped :
  (forall (a b : timespec) (rs bs rns : Z),
      valid a = true -> valid b = true ->
      borrow_step time_t HZ a b = Ok (Fallthrough rs bs rns) ->
      rs - bs = SEC_MIN time_t \/ rs - bs = SEC_MAX time_t ->
      snd (ckd_sub time_t rs bs) = false
      /\ timespec_sub time_t HZ a b = Ok (Timespec (rs - bs) rns))
  /\ (snd (ckd_sub time_t (SEC_MIN time_t + 1) 1) = false
      /\ timespec_sub time_t HZ
           (Timespec (SEC_MIN time_t + 1) 0) (Timespec 1 0)
         = Ok (Timespec (SEC_MIN time_t) 0))
  /\ timespec_sub time_t HZ
       (Timespec (SEC_MIN time_t + 2) 0) (Timespec 1 0)
     = Ok (Timespec (SEC_MIN time_t + 1) 0).
Proof.
  pose proof minimum_le_maximum as Hmm.
  assert (Hstep : forall s : Z,
             borrow_step time_t HZ (Timespec s 0) (Timespec 1 0)
             = Ok (Fallthrough s 1 0)) by reflexivity.
  assert (Hzero : in_range int_t 0 = true) by reflexivity.
  split; [| split; [split |]].
  - intros a b rs bs rns Ha Hb Hst Hedge.
    assert (Hin : in_range time_t (rs - bs) = true)
      by (apply in_range_iff; unfold SEC_MIN, SEC_MAX in Hedge; lia).
    split; [unfold ckd_sub; simpl; now rewrite Hin |].
    assert (Hrns : in_range int_t rns = true).
    { pose proof (proj1 (valid_timespec_iff a) Ha) as [_ Han].
      pose proof (proj1 (valid_timespec_iff b) Hb) as [_ Hbn].
      pose proof (proj1 (int_range _) HZ_int) as Hz.
      destruct (Z.lt_ge_cases (tv_nsec a) (tv_nsec b)) as [Hlt | Hge].
      - rewrite borrow_step_borrow in Hst by trivial.
        destruct (tv_sec b <? MAX);
          [| destruct (- TYPE_SIGNED time_t <? tv_sec a)];
          inversion Hst; apply int_range; lia.
      - rewrite borrow_step_none in Hst by trivial.
        inversion Hst; apply int_range; lia. }
    unfold timespec_sub. rewrite Hst. cbn [bind].
    now apply saturate_exact.
  - unfold ckd_sub; simpl. apply negb_false_iff, in_range_iff.
    unfold SEC_MIN.
    destruct (type_shape _ time_t_bits) as [(S1 & M1 & M2) | (S1 & M1 & M2)];
      lia.
  - unfold timespec_sub. rewrite Hstep. cbn [bind].
    rewrite saturate_exact; [f_equal; f_equal; lia | | exact Hzero].
    apply in_range_iff. unfold SEC_MIN.
    destruct (type_shape _ time_t_bits) as [(S1 & M1 & M2) | (S1 & M1 & M2)];
      lia.
  - unfold timespec_sub. rewrite Hstep. cbn [bind].
    rewrite saturate_exact; [f_equal; f_equal; lia | | exact Hzero].
    apply in_range_iff. unfold SEC_MIN.
    destruct (type_shape _ time_t_bits) as [(S1 & M1 & M2) | (S1 & M1 & M2)];
      lia.
Qed.

(** C8: for every valid time point [a], [timespec_sub a a = {0, 0}]. *)
Theorem timespec_sub_self (a : timespec) :
  valid a = true -> timespec_sub time_t HZ a a = Ok (Timespec 0 0).
Proof.
  intros Ha. unfold timespec_sub.
  rewrite borrow_step_none by (trivial; lia). cbn [bind].
  rewrite saturate_exact; rewrite !Z.sub_diag;
    [reflexivity | apply small_values_in_range; lia | reflexivity].
Qed.

(** C9: [timespec_sub] is total on valid time points: for every pair of
    arguments with [0 <= tv_nsec < HZ], also with seconds at [SEC_MIN] or
    [SEC_MAX], the monitored run ends with a time point; no step overflows
    unchecked, wraps or is undefined. *)
Theorem timespec_sub_total (a b : timespec) :
  valid a = true -> valid b = true ->
  (exists r : timespec, timespec_sub time_t HZ a b = Ok r)
  /\ (forall f : fault, timespec_sub time_t HZ a b <> Fault f).
Proof.
  intros Ha Hb. rewrite timespec_sub_saturates by trivial.
  split; [eexists; reflexivity | discriminate].
Qed.

(** C10: the zero time point is a right identity: for every valid [a],
    also with [tv_sec a] at [SEC_MIN] or [SEC_MAX],
    [timespec_sub a {0, 0}] returns [a] unchanged. *)
Theorem timespec_sub_zero_right (a : timespec) :
  valid a = true -> timespec_sub time_t HZ a (Timespec 0 0) = Ok a.
Proof.
  intros Ha.
  pose proof (proj1 (valid_timespec_iff a) Ha) as [Has Han].
  pose proof (proj1 (int_range _) HZ_int) as Hz.
  assert (Hzero : valid (Timespec 0 0) = true).
  { apply valid_timespec_iff. cbn [tv_sec tv_nsec].
    pose proof (proj1 (in_range_iff _ _)
                  (small_values_in_range 0 ltac:(lia))).
    lia. }
  unfold timespec_sub.
  rewrite borrow_step_none by (trivial; cbn [tv_nsec]; lia).
  cbn [bind tv_sec tv_nsec].
  rewrite saturate_exact;
    [ destruct a; cbn [tv_sec tv_nsec]; now rewrite !Z.sub_0_r
    | apply in_range_iff; lia
    | apply int_range; lia ].
Qed.

End Verification.

(** * Concrete platforms

    The theorems at a signed 64-bit [time_t] with nanosecond resolution,
    and the evaluation of the code on particular arguments. *)

Lemma time64_bits : 8 <= it_bits time64.
Proof. simpl. lia. Defined.

Example borrow_1000 :
  timespec_sub time64 1000 (Timespec 5 100) (Timespec 3 200)
  = Ok (Timespec 1 900).
Proof. reflexivity. Qed.

Example borrow_at_boundary :
  timespec_sub time64 NSEC_HZ (Timespec 1 0) (Timespec 0 (NSEC_HZ - 1))
  = Ok (Timespec 0 1).
Proof. reflexivity. Qed.

Example decrement_path :
  borrow_step time64 NSEC_HZ (Timespec 0 0) (Timespec (SEC_MAX time64) 1)
  = Ok (Fallthrough (-1) (SEC_MAX time64) 999999999)
  /\ timespec_sub time64 NSEC_HZ (Timespec 0 0) (Timespec (SEC_MAX time64) 1)
     = Ok (Timespec (SEC_MIN time64) 999999999).
Proof. split; reflexivity. Qed.

Example unsigned_decrement_path :
  borrow_step utime64 NSEC_HZ (Timespec 1 0) (Timespec (SEC_MAX utime64) 1)
  = Ok (Fallthrough 0 (SEC_MAX utime64) 999999999)
  /\ timespec_sub utime64 NSEC_HZ (Timespec 1 0)
       (Timespec (SEC_MAX utime64) 1)
     = Ok (Timespec 0 0).
Proof. split; reflexivity. Qed.

(** Outside the precondition on [tv_nsec] the unchecked subtraction of
    line 35 can overflow: the monitor is not vacuous. *)
Example nsec_out_of_range_faults :
  timespec_sub time64 NSEC_HZ
    (Timespec 0 (TYPE_MAXIMUM long_t)) (Timespec 0 (-1))
  = Fault Undefined_behaviour.
Proof. reflexivity. Qed.

Lemma timespec_sub_exact_in_range_witness :
  timespec_sub time64 NSEC_HZ (Timespec 5 100) (Timespec 3 200)
  = Ok (Timespec 1 999999900)
  /\ timespec_sub time64 1000 (Timespec 5 100) (Timespec 3 200)
     = Ok (Timespec 1 900).
Proof.
  split.
  - apply (proj1 (timespec_sub_exact_in_range time64 NSEC_HZ
                    time64_bits eq_refl));
      reflexivity.
  - apply (proj2 (timespec_sub_exact_in_range time64 1000
                    time64_bits eq_refl)).
    reflexivity.
Defined.

Lemma timespec_sub_clamps_low_witness :
  (value NSEC_HZ (Timespec (SEC_MIN time64) 5) - value NSEC_HZ (Timespec 0 7)
   < value NSEC_HZ (timespec_min time64))%Q
  /\ timespec_sub time64 NSEC_HZ (Timespec (SEC_MIN time64) 5) (Timespec 0 7)
     = Ok (Timespec (SEC_MIN time64) 0).
Proof.
  assert (H : (value NSEC_HZ (Timespec (SEC_MIN time64) 5)
               - value NSEC_HZ (Timespec 0 7)
               < value NSEC_HZ (timespec_min time64))%Q)
    by (vm_compute; reflexivity).
  split; [exact H |].
  apply (proj1 (timespec_sub_clamps_low time64 NSEC_HZ time64_bits eq_refl));
    [reflexivity | reflexivity | exact H].
Defined.

Lemma timespec_sub_clamps_high_witness :
  timespec_sub time64 NSEC_HZ (Timespec (SEC_MAX time64) 7) (Timespec (-1) 5)
  = Ok (Timespec (SEC_MAX time64) (NSEC_HZ - 1))
  /\ timespec_sub time64 NSEC_HZ
       (Timespec (SEC_MAX time64) (NSEC_HZ - 1)) (Timespec (-1) 0)
     = Ok (Timespec (SEC_MAX time64) (NSEC_HZ - 1)).
Proof.
  split.
  - apply (proj1 (timespec_sub_clamps_high time64 NSEC_HZ
                    time64_bits eq_refl));
      [reflexivity | reflexivity | vm_compute; reflexivity].
  - apply (proj2 (timespec_sub_clamps_high time64 NSEC_HZ
                    time64_bits eq_refl));
      reflexivity.
Defined.

Lemma timespec_sub_preserves_validity_witness :
  exists r : timespec,
    timespec_sub time64 NSEC_HZ (Timespec 5 100) (Timespec 3 200) = Ok r
    /\ valid_timespec time64 NSEC_HZ r = true
    /\ 0 <= tv_nsec r < NSEC_HZ.
Proof.
  apply (timespec_sub_preserves_validity time64 NSEC_HZ time64_bits eq_refl);
    reflexivity.
Defined.

(** C5 as stated fails: with a signed 64-bit [time_t], minuend seconds
    -5 (strictly above [SEC_MIN]), subtrahend seconds [SEC_MAX] and a
    negative sub-unit difference, the increment overflows, and the code
    does not decrement the minuend but goes straight to [low_overflow]. *)
Lemma borrow_short_circuits_above_minimum :
  SEC_MIN time64 < -5
  /\ snd (ckd_add time64 (SEC_MAX time64) 1) = true
  /\ borrow_step time64 NSEC_HZ (Timespec (-5) 0) (Timespec (SEC_MAX time64) 1)
     = Ok Goto_low_overflow
  /\ borrow_step time64 NSEC_HZ (Timespec (-5) 0) (Timespec (SEC_MAX time64) 1)
     <> Ok (Fallthrough (-6) (SEC_MAX time64) 999999999).
Proof.
  repeat split; try reflexivity. discriminate.
Qed.

Lemma borrow_overflow_branches_witness :
  borrow_step time64 NSEC_HZ (Timespec 0 0) (Timespec (SEC_MAX time64) 1)
  = Ok (Fallthrough (0 - 1) (SEC_MAX time64) (0 - 1 + NSEC_HZ))
  /\ borrow_step time64 NSEC_HZ (Timespec (-5) 0)
       (Timespec (SEC_MAX time64) 1)
     = Ok Goto_low_overflow
  /\ timespec_sub time64 NSEC_HZ (Timespec (-5) 0)
       (Timespec (SEC_MAX time64) 1)
     = Ok (Timespec (SEC_MIN time64) 0).
Proof.
  split.
  - apply (proj1 (borrow_overflow_branches time64 NSEC_HZ
                    time64_bits eq_refl
                    (Timespec 0 0) (Timespec (SEC_MAX time64) 1)
                    eq_refl eq_refl eq_refl eq_refl)).
    reflexivity.
  - apply (proj2 (borrow_overflow_branches time64 NSEC_HZ
                    time64_bits eq_refl
                    (Timespec (-5) 0) (Timespec (SEC_MAX time64) 1)
                    eq_refl eq_refl eq_refl eq_refl)).
    simpl. lia.
Defined.

Lemma overflow_direction_by_subtrahend_sign_witness :
  timespec_sub time64 NSEC_HZ (Timespec (SEC_MIN time64) 0) (Timespec 1 0)
  = Ok (Timespec (SEC_MIN time64) 0)
  /\ timespec_sub time64 NSEC_HZ (Timespec (SEC_MAX time64) 3) (Timespec (-1) 0)
     = Ok (Timespec (SEC_MAX time64) (NSEC_HZ - 1)).
Proof.
  split.
  - apply (proj1 (overflow_direction_by_subtrahend_sign time64 NSEC_HZ
                    eq_refl
                    (Timespec (SEC_MIN time64) 0) (Timespec 1 0)
                    (SEC_MIN time64) 1 0
                    eq_refl eq_refl eq_refl eq_refl)).
    reflexivity.
  - apply (proj1 (proj2 (overflow_direction_by_subtrahend_sign time64 NSEC_HZ
                    eq_refl
                    (Timespec (SEC_MAX time64) 3) (Timespec (-1) 0)
                    (SEC_MAX time64) (-1) 3
                    eq_refl eq_refl eq_refl eq_refl))).
    discriminate.
Defined.

Lemma boundary_results_not_clamped_witness :
  snd (ckd_sub time64 (SEC_MAX time64 - 1) (-1)) = false
  /\ timespec_sub time64 NSEC_HZ
       (Timespec (SEC_MAX time64 - 1) 3) (Timespec (-1) 0)
     = Ok (Timespec (SEC_MAX time64 - 1 - -1) 3).
Proof.
  apply (proj1 (boundary_results_not_clamped time64 NSEC_HZ
                  time64_bits eq_refl)
           (Timespec (SEC_MAX time64 - 1) 3) (Timespec (-1) 0));
    try reflexivity.
  right. reflexivity.
Defined.

Lemma timespec_sub_self_witness :
  timespec_sub time64 NSEC_HZ
    (Timespec (SEC_MIN time64) 999999999) (Timespec (SEC_MIN time64) 999999999)
  = Ok (Timespec 0 0).
Proof.
  apply (timespec_sub_self time64 NSEC_HZ time64_bits eq_refl). reflexivity.
Defined.

Lemma timespec_sub_total_witness :
  (exists r : timespec,
      timespec_sub time64 NSEC_HZ
        (Timespec (SEC_MIN time64) 0) (Timespec (SEC_MAX time64) 999999999)
      = Ok r)
  /\ (forall f : fault,
        timespec_sub time64 NSEC_HZ
          (Timespec (SEC_MIN time64) 0) (Timespec (SEC_MAX time64) 999999999)
        <> Fault f).
Proof.
  apply (timespec_sub_total time64 NSEC_HZ time64_bits eq_refl); reflexivity.
Defined.

Lemma timespec_sub_zero_right_witness :
  timespec_sub time64 NSEC_HZ
    (Timespec (SEC_MAX time64) 999999999) (Timespec 0 0)
  = Ok (Timespec (SEC_MAX time64) 999999999).
Proof.
  apply (timespec_sub_zero_right time64 NSEC_HZ time64_bits eq_refl).
  reflexivity.
Defined.

(** * Further properties of [timespec_sub]

    What follows from the saturation contract for a user of the routine,
    and what the two stages of the code guarantee on their own. *)

Section Further.

Variable time_t : int_type.
Variable HZ : Z.

Hypothesis time_t_bits : 8 <= it_bits time_t.
Hypothesis HZ_int : in_range int_t HZ = true.

Local Abbreviation valid := (valid_timespec time_t HZ).
Local Abbreviation MIN := (TYPE_MINIMUM time_t).
Local Abbreviation MAX := (TYPE_MAXIMUM time_t).
Local Abbreviation tmin := (timespec_min time_t).
Local Abbreviation tmax := (timespec_max time_t HZ).
Local Abbreviation sub := (timespec_sub time_t HZ).

Lemma units_injective (x y : timespec) :
  0 <= tv_nsec x < HZ -> 0 <= tv_nsec y < HZ ->
  units HZ x = units HZ y -> x = y.
Proof.
  intros Hx Hy Hu. unfold units in Hu.
  destruct (div_mod_decomposed HZ (tv_sec x) (tv_nsec x) Hx) as [Hq Hm].
  destruct (div_mod_decomposed HZ (tv_sec y) (tv_nsec y) Hy) as [Hq' Hm'].
  rewrite Hu in Hq, Hm.
  destruct x, y; cbn [tv_sec tv_nsec] in *. congruence.
Qed.

Lemma units_extremes :
  units HZ tmin = MIN * HZ /\ units HZ tmax = MAX * HZ + (HZ - 1).
Proof. unfold units, timespec_min, timespec_max, SEC_MIN, SEC_MAX. simpl. lia. Qed.

Lemma extremes_signs :
  0 < HZ ->
  units HZ tmin <= 0 < units HZ tmax
  /\ (it_signed time_t = true -> units HZ tmin <= - HZ)
  /\ (it_signed time_t = false -> units HZ tmin = 0).
Proof.
  intros Hpos. destruct units_extremes as [Elo Ehi]. rewrite Elo, Ehi.
  unfold TYPE_SIGNED in *.
  destruct (type_shape _ time_t_bits) as [(S1 & M1 & M2) | (S1 & M1 & M2)];
    unfold TYPE_SIGNED in S1; destruct (it_signed time_t); try discriminate;
    (split; [nia | split; intros E; try discriminate; nia]).
Qed.

Lemma seconds_sign (x : timespec) :
  0 <= tv_nsec x < HZ -> tv_sec x < 0 <-> units HZ x < 0.
Proof. intros Hx. unfold units. split; intros H; nia. Qed.

(** The saturated difference, counted in sub-second units, is the exact
    difference clamped between the two extremal time points. *)
Lemma saturated_difference_units (a b : timespec) :
  0 < HZ ->
  units HZ (saturated_difference time_t HZ a b)
  = Z.max (units HZ tmin) (Z.min (units HZ tmax) (units HZ a - units HZ b)).
Proof.
  intros Hpos. pose proof (minimum_le_maximum time_t time_t_bits) as Hmm.
  destruct units_extremes as [Hlo Hhi]. rewrite Hlo, Hhi.
  unfold saturated_difference, SEC_MIN, SEC_MAX.
  set (d := units HZ a - units HZ b).
  pose proof (Z.div_mod d HZ ltac:(lia)) as Hd.
  pose proof (Z.mod_pos_bound d HZ Hpos) as Hm.
  destruct (Z.ltb_spec (d / HZ) MIN);
    [| destruct (Z.ltb_spec MAX (d / HZ))].
  - fold tmin. rewrite Hlo. nia.
  - fold tmax. rewrite Hhi. nia.
  - unfold units. cbn [tv_sec tv_nsec]. nia.
Qed.

Lemma valid_nsec (x : timespec) :
  valid x = true -> 0 <= tv_nsec x < HZ.
Proof. intros H. now apply valid_timespec_iff in H. Qed.

Ltac contract a b Ha Hb :=
  rewrite (timespec_sub_saturates time_t HZ time_t_bits HZ_int a b Ha Hb).

Ltac contract_in a b Ha Hb H :=
  rewrite (timespec_sub_saturates time_t HZ time_t_bits HZ_int a b Ha Hb) in H.

(** X1: on valid arguments the result is the valid time point nearest to
    the exact difference: counted in sub-second units it is the exact
    difference clamped between [{SEC_MIN, 0}] and [{SEC_MAX, HZ - 1}]. *)
Theorem timespec_sub_nearest_representable (a b : timespec) :
  valid a = true -> valid b = true ->
  exists r : timespec,
    sub a b = Ok r
    /\ valid r = true
    /\ units HZ r
       = Z.max (units HZ tmin)
           (Z.min (units HZ tmax) (units HZ a - units HZ b)).
Proof.
  intros Ha Hb.
  pose proof (valid_HZ_positive time_t HZ a Ha) as Hpos.
  exists (saturated_difference time_t HZ a b). contract a b Ha Hb.
  split; [reflexivity | split].
  - now apply saturated_difference_valid.
  - now apply saturated_difference_units.
Qed.

(** X2: saturating subtraction is monotone: a later minuend and an earlier
    subtrahend never give a smaller result. *)
Theorem timespec_sub_monotone (a a' b b' : timespec) :
  valid a = true -> valid a' = true -> valid b = true -> valid b' = true ->
  units HZ a <= units HZ a' -> units HZ b' <= units HZ b ->
  exists r r' : timespec,
    sub a b = Ok r /\ sub a' b' = Ok r' /\ units HZ r <= units HZ r'.
Proof.
  intros Ha Ha' Hb Hb' Hle Hle'.
  pose proof (valid_HZ_positive time_t HZ a Ha) as Hpos.
  exists (saturated_difference time_t HZ a b),
    (saturated_difference time_t HZ a' b').
  contract a b Ha Hb. contract a' b' Ha' Hb'.
  split; [reflexivity | split; [reflexivity |]].
  rewrite !saturated_difference_units by trivial. lia.
Qed.

Lemma exact_unless_extremal (a b r : timespec) :
  valid a = true -> valid b = true ->
  sub a b = Ok r -> r <> tmin -> r <> tmax ->
  valid r = true /\ units HZ r = units HZ a - units HZ b.
Proof.
  intros Ha Hb Hr Hlo Hhi.
  pose proof (valid_HZ_positive time_t HZ a Ha) as Hpos.
  contract_in a b Ha Hb Hr. injection Hr as Hr'.
  pose proof (saturated_difference_units a b Hpos) as Hu.
  pose proof (saturated_difference_valid time_t HZ time_t_bits a b Hpos) as Hv.
  rewrite Hr' in Hu, Hv. split; [exact Hv |].
  apply valid_nsec in Hv.
  assert (Nlo : units HZ r <> units HZ tmin).
  { intros E. apply Hlo. apply units_injective; trivial.
    unfold timespec_min; cbn [tv_nsec]; lia. }
  assert (Nhi : units HZ r <> units HZ tmax).
  { intros E. apply Hhi. apply units_injective; trivial.
    unfold timespec_max; cbn [tv_nsec]; lia. }
  lia.
Qed.

(** X3: saturation shows in the result: a result that is neither
    [{SEC_MIN, 0}] nor [{SEC_MAX, HZ - 1}] is the exact difference, so that
    adding the subtrahend back gives the minuend. *)
Theorem unsaturated_result_exact (a b r : timespec) :
  valid a = true -> valid b = true ->
  sub a b = Ok r -> r <> tmin -> r <> tmax ->
  units HZ r + units HZ b = units HZ a.
Proof.
  intros Ha Hb Hr Hlo Hhi.
  destruct (exact_unless_extremal a b r Ha Hb Hr Hlo Hhi) as [_ Hu]. lia.
Qed.

(** X4: with a signed [time_t] the result is [{0, 0}] exactly when the two
    time points are equal. *)
Theorem signed_zero_iff_equal (a b : timespec) :
  it_signed time_t = true ->
  valid a = true -> valid b = true ->
  sub a b = Ok (Timespec 0 0) <-> a = b.
Proof.
  intros Hs Ha Hb.
  pose proof (valid_HZ_positive time_t HZ a Ha) as Hpos.
  destruct (extremes_signs Hpos) as (Hext & Hneg & _). specialize (Hneg Hs).
  contract a b Ha Hb. split.
  - intros Hr. injection Hr as Hr'.
    pose proof (saturated_difference_units a b Hpos) as Hu.
    rewrite Hr' in Hu. unfold units at 1 in Hu. cbn [tv_sec tv_nsec] in Hu.
    apply units_injective; try now apply valid_nsec.
    lia.
  - intros <-. f_equal.
    apply (saturated_difference_exact time_t HZ).
    + apply valid_timespec_iff. cbn [tv_sec tv_nsec].
      pose proof (proj1 (in_range_iff _ _)
                    (small_values_in_range time_t time_t_bits 0 ltac:(lia))).
      lia.
    + unfold units at 1. cbn [tv_sec tv_nsec]. lia.
Qed.

(** X5: with an unsigned [time_t] nothing below zero is representable: the
    result is [{0, 0}] exactly when the minuend is not later than the
    subtrahend. *)
Theorem unsigned_zero_iff_not_later (a b : timespec) :
  it_signed time_t = false ->
  valid a = true -> valid b = true ->
  sub a b = Ok (Timespec 0 0) <-> units HZ a <= units HZ b.
Proof.
  intros Hs Ha Hb.
  pose proof (valid_HZ_positive time_t HZ a Ha) as Hpos.
  pose proof (saturated_difference_units a b Hpos) as Hu.
  pose proof (saturated_difference_valid time_t HZ time_t_bits a b Hpos) as Hv.
  destruct (extremes_signs Hpos) as (Hext & _ & Hzero). specialize (Hzero Hs).
  contract a b Ha Hb. split.
  - intros Hr. injection Hr as Hr'. rewrite Hr' in Hu.
    unfold units at 1 in Hu. cbn [tv_sec tv_nsec] in Hu. lia.
  - intros Hle. f_equal. apply units_injective.
    + now apply valid_nsec.
    + cbn [tv_nsec]. lia.
    + rewrite Hu. change (units HZ (Timespec 0 0)) with (0 * HZ + 0). lia.
Qed.

(** X6: with a signed [time_t] the sign of the result's seconds compares
    the arguments, saturated or not: [tv_sec] of the result is negative
    exactly when the minuend is earlier than the subtrahend. *)
Theorem signed_result_sign (a b : timespec) :
  it_signed time_t = true ->
  valid a = true -> valid b = true ->
  exists r : timespec,
    sub a b = Ok r /\ (tv_sec r < 0 <-> units HZ a < units HZ b).
Proof.
  intros Hs Ha Hb.
  pose proof (valid_HZ_positive time_t HZ a Ha) as Hpos.
  exists (saturated_difference time_t HZ a b). contract a b Ha Hb.
  split; [reflexivity |].
  pose proof (saturated_difference_units a b Hpos) as Hu.
  pose proof (saturated_difference_valid time_t HZ time_t_bits a b Hpos) as Hv.
  apply valid_nsec in Hv.
  destruct (extremes_signs Hpos) as (Hext & Hneg & _). specialize (Hneg Hs).
  rewrite (seconds_sign _ Hv). lia.
Qed.

Lemma valid_units_bounds (x : timespec) :
  valid x = true -> units HZ tmin <= units HZ x <= units HZ tmax.
Proof.
  intros Hx. apply valid_timespec_iff in Hx.
  destruct units_extremes as [Elo Ehi]. rewrite Elo, Ehi.
  unfold units. nia.
Qed.

(** X7: the result depends on the exact difference only: two pairs of
    valid time points that are equally far apart, such as a pair and the
    same pair shifted in time, give the same result. *)
Theorem timespec_sub_translation_invariant (a b a' b' : timespec) :
  valid a = true -> valid b = true -> valid a' = true -> valid b' = true ->
  units HZ a - units HZ b = units HZ a' - units HZ b' ->
  sub a b = sub a' b'.
Proof.
  intros Ha Hb Ha' Hb' Hd.
  contract a b Ha Hb. contract a' b' Ha' Hb'.
  unfold saturated_difference. now rewrite Hd.
Qed.

(** X8: a round trip: when [timespec_sub a b] returns [r] and [r] is not
    one of the two extremal values, subtracting [r] from [a] gives back
    [b]. *)
Theorem timespec_sub_round_trip (a b r : timespec) :
  valid a = true -> valid b = true ->
  sub a b = Ok r -> r <> tmin -> r <> tmax ->
  sub a r = Ok b.
Proof.
  intros Ha Hb Hr Hlo Hhi.
  destruct (exact_unless_extremal a b r Ha Hb Hr Hlo Hhi) as [Hv Hu].
  contract a r Ha Hv. f_equal.
  apply (saturated_difference_exact time_t HZ); [exact Hb | lia].
Qed.

(** X9: negation, that is subtraction from [{0, 0}], with a signed
    [time_t]: it is exact for every valid time point but [{SEC_MIN, 0}],
    whose negation is not representable and comes out as
    [{SEC_MAX, HZ - 1}]. *)
Theorem signed_negation (b : timespec) :
  it_signed time_t = true -> valid b = true ->
  (b <> tmin ->
   exists r : timespec,
     sub (Timespec 0 0) b = Ok r /\ valid r = true
     /\ units HZ r = - units HZ b)
  /\ (b = tmin -> sub (Timespec 0 0) b = Ok tmax).
Proof.
  intros Hs Hb.
  pose proof (valid_HZ_positive time_t HZ b Hb) as Hpos.
  assert (Hzero : valid (Timespec 0 0) = true).
  { apply valid_timespec_iff. cbn [tv_sec tv_nsec].
    pose proof (proj1 (in_range_iff _ _)
                  (small_values_in_range time_t time_t_bits 0 ltac:(lia))).
    lia. }
  pose proof (saturated_difference_units (Timespec 0 0) b Hpos) as Hu.
  pose proof (saturated_difference_valid time_t HZ time_t_bits
                (Timespec 0 0) b Hpos) as Hv.
  pose proof (valid_units_bounds b Hb) as Hbb.
  change (units HZ (Timespec 0 0)) with (0 * HZ + 0) in Hu.
  assert (Hsym : units HZ tmax = - units HZ tmin - 1).
  { destruct units_extremes as [Elo Ehi]. rewrite Elo, Ehi.
    destruct (type_shape _ time_t_bits) as [(S1 & M1 & M2) | (S1 & M1 & M2)];
      [nia |].
    unfold TYPE_SIGNED in S1. rewrite Hs in S1. discriminate. }
  contract (Timespec 0 0) b Hzero Hb. split.
  - intros Hne. eexists. split; [reflexivity | split; [exact Hv |]].
    assert (Nlo : units HZ b <> units HZ tmin).
    { intros E. apply Hne. apply units_injective; trivial.
      - now apply valid_nsec.
      - unfold timespec_min; cbn [tv_nsec]; lia. }
    lia.
  - intros ->. f_equal. apply units_injective.
    + now apply valid_nsec.
    + unfold timespec_max; cbn [tv_nsec]; lia.
    + lia.
Qed.

(** X10: the borrow of lines 38-48 is exact and stays in range: whenever
    control reaches the subtraction of line 50, [rs] and [bs] are [time_t]
    values, [rns] lies in [0, HZ), and [(rs - bs) * HZ + rns] is the exact
    difference of the arguments in sub-second units. *)
Theorem borrow_step_fallthrough_invariant (a b : timespec) (rs bs rns : Z) :
  valid a = true -> valid b = true ->
  borrow_step time_t HZ a b = Ok (Fallthrough rs bs rns) ->
  in_range time_t rs = true /\ in_range time_t bs = true
  /\ 0 <= rns < HZ
  /\ (rs - bs) * HZ + rns = units HZ a - units HZ b.
Proof.
  intros Ha Hb Hst.
  pose proof (proj1 (valid_timespec_iff time_t HZ a) Ha) as [Has Han].
  pose proof (proj1 (valid_timespec_iff time_t HZ b) Hb) as [Hbs Hbn].
  rewrite !in_range_iff. unfold units.
  destruct (Z.lt_ge_cases (tv_nsec a) (tv_nsec b)) as [Hlt | Hge].
  - rewrite (borrow_step_borrow time_t HZ time_t_bits HZ_int a b Ha Hb Hlt)
      in Hst.
    destruct (Z.ltb_spec (tv_sec b) MAX);
      [| destruct (Z.ltb_spec (- TYPE_SIGNED time_t) (tv_sec a))];
      inversion Hst; subst; clear Hst.
    + repeat split; lia.
    + destruct (type_shape _ time_t_bits) as [(S1 & M1 & M2) | (S1 & M1 & M2)];
        repeat split; lia.
  - rewrite (borrow_step_none time_t HZ HZ_int a b Ha Hb Hge) in Hst.
    inversion Hst; subst; clear Hst. repeat split; lia.
Qed.

(** X11: the jump of line 47 is sound: control goes to [low_overflow]
    without a subtraction only when there is a borrow, the subtrahend's
    seconds are [SEC_MAX], and the exact difference lies below
    [{SEC_MIN, 0}]. *)
Theorem borrow_step_jump_sound (a b : timespec) :
  valid a = true -> valid b = true ->
  borrow_step time_t HZ a b = Ok Goto_low_overflow ->
  tv_nsec a < tv_nsec b /\ tv_sec b = SEC_MAX time_t
  /\ units HZ a - units HZ b < units HZ tmin.
Proof.
  intros Ha Hb Hst.
  pose proof (proj1 (valid_timespec_iff time_t HZ a) Ha) as [Has Han].
  pose proof (proj1 (valid_timespec_iff time_t HZ b) Hb) as [Hbs Hbn].
  destruct units_extremes as [Elo _]. rewrite Elo. unfold units, SEC_MAX.
  destruct (Z.lt_ge_cases (tv_nsec a) (tv_nsec b)) as [Hlt | Hge].
  - rewrite (borrow_step_borrow time_t HZ time_t_bits HZ_int a b Ha Hb Hlt)
      in Hst.
    destruct (Z.ltb_spec (tv_sec b) MAX);
      [| destruct (Z.ltb_spec (- TYPE_SIGNED time_t) (tv_sec a))];
      try discriminate.
    destruct (type_shape _ time_t_bits) as [(S1 & M1 & M2) | (S1 & M1 & M2)];
      repeat split; try lia; nia.
  - rewrite (borrow_step_none time_t HZ HZ_int a b Ha Hb Hge) in Hst.
    discriminate.
Qed.

Lemma saturate_returns (c : control) :
  0 < HZ ->
  match c with
  | Fallthrough _ _ rns => in_range int_t rns = true
  | Goto_low_overflow => True
  end ->
  exists r : timespec, saturate time_t HZ c = Ok r.
Proof.
  intros Hpos Hc. destruct c as [rs bs rns |]; cbn [saturate].
  - unfold ckd_sub. destruct (in_range time_t (rs - bs)); cbn [negb].
    + rewrite make_timespec_int by trivial. eexists; reflexivity.
    + unfold overflow_clamp. destruct (0 <? bs).
      * rewrite low_overflow_eq. eexists; reflexivity.
      * rewrite high_overflow_eq by trivial. eexists; reflexivity.
  - rewrite low_overflow_eq. eexists; reflexivity.
Qed.

(** X12: the routine runs to the end, with no unchecked overflow, under
    less than its stated precondition: it is enough that the seconds are
    [time_t] values and that the difference of the two [tv_nsec] fields
    fits in an [int], whether or not each lies in [0, HZ). *)
Theorem timespec_sub_returns_when_nsec_difference_fits (a b : timespec) :
  0 < HZ ->
  in_range time_t (tv_sec a) = true -> in_range time_t (tv_sec b) = true ->
  in_range int_t (tv_nsec a - tv_nsec b) = true ->
  exists r : timespec, sub a b = Ok r.
Proof.
  intros Hpos Has Hbs Hns.
  pose proof (proj1 (int_range _) Hns) as Hn.
  pose proof (proj1 (int_range _) HZ_int) as Hz.
  apply in_range_iff in Has, Hbs.
  unfold timespec_sub, borrow_step.
  rewrite arith_in_range by (apply long_range; lia). cbn [bind].
  rewrite convert_in_range by trivial. cbn [bind].
  destruct (Z.ltb_spec (tv_nsec a - tv_nsec b) 0) as [Hneg | Hnn].
  - assert (Hr : in_range int_t (tv_nsec a - tv_nsec b + HZ) = true)
      by (apply int_range; lia).
    rewrite (arith_in_range _ _ Hr). cbn [bind]. unfold ckd_add.
    destruct (in_range time_t (tv_sec b + 1)); cbn [negb bind].
    + now apply saturate_returns.
    + destruct (Z.ltb_spec (- TYPE_SIGNED time_t) (tv_sec a)) as [Hs | Hs].
      * rewrite arith_in_range; cbn [bind]; [now apply saturate_returns |].
        apply in_range_iff.
        destruct (type_shape _ time_t_bits)
          as [(S1 & M1 & M2) | (S1 & M1 & M2)]; lia.
      * now apply saturate_returns.
  - cbn [bind]. now apply saturate_returns.
Qed.

(** X13: the routine does not normalise: when the difference of the two
    [tv_nsec] fields is not negative and fits in an [int], and the
    difference of the seconds fits in [time_t], the result is the pair of
    the two differences, so that a difference of [HZ] or more, possible
    only outside the precondition, gives a result outside [0, HZ). *)
Theorem timespec_sub_passes_large_nsec_through (a b : timespec) :
  0 <= tv_nsec a - tv_nsec b <= TYPE_MAXIMUM int_t ->
  in_range time_t (tv_sec a - tv_sec b) = true ->
  sub a b = Ok (Timespec (tv_sec a - tv_sec b) (tv_nsec a - tv_nsec b))
  /\ (HZ <= tv_nsec a - tv_nsec b ->
      valid (Timespec (tv_sec a - tv_sec b) (tv_nsec a - tv_nsec b)) = false).
Proof.
  intros Hn Hs.
  assert (Hmax : TYPE_MAXIMUM int_t = 2147483647) by reflexivity.
  assert (Hns : in_range int_t (tv_nsec a - tv_nsec b) = true)
    by (apply int_range; lia).
  split.
  - unfold timespec_sub, borrow_step.
    rewrite arith_in_range by (apply long_range; lia). cbn [bind].
    rewrite convert_in_range by trivial. cbn [bind].
    destruct (Z.ltb_spec (tv_nsec a - tv_nsec b) 0); [lia |].
    cbn [bind]. now apply saturate_exact.
  - intros Hhz. unfold valid_timespec. cbn [tv_sec tv_nsec].
    destruct (Z.ltb_spec (tv_nsec a - tv_nsec b) HZ); [lia |].
    apply andb_false_r.
Qed.

(** X14: differences compose: when the offsets of [a] and of [c] from a
    common base [b] are both returned unsaturated, subtracting one offset
    from the other gives what subtracting [c] from [a] gives. *)
Theorem timespec_sub_of_offsets (a b c r1 r2 : timespec) :
  valid a = true -> valid b = true -> valid c = true ->
  sub a b = Ok r1 -> r1 <> tmin -> r1 <> tmax ->
  sub c b = Ok r2 -> r2 <> tmin -> r2 <> tmax ->
  sub r1 r2 = sub a c.
Proof.
  intros Ha Hb Hc H1 L1 U1 H2 L2 U2.
  destruct (exact_unless_extremal a b r1 Ha Hb H1 L1 U1) as [V1 E1].
  destruct (exact_unless_extremal c b r2 Hc Hb H2 L2 U2) as [V2 E2].
  contract r1 r2 V1 V2. contract a c Ha Hc.
  unfold saturated_difference.
  replace (units HZ r1 - units HZ r2) with (units HZ a - units HZ c) by lia.
  reflexivity.
Qed.

End Further.

(** ** The further properties at concrete platforms *)

Lemma utime64_bits : 8 <= it_bits utime64.
Proof. simpl. lia. Defined.

Lemma timespec_sub_nearest_representable_witness :
  exists r : timespec,
    timespec_sub time64 NSEC_HZ (Timespec (SEC_MIN time64) 5) (Timespec 7 9)
    = Ok r
    /\ valid_timespec time64 NSEC_HZ r = true
    /\ units NSEC_HZ r
       = Z.max (units NSEC_HZ (timespec_min time64))
           (Z.min (units NSEC_HZ (timespec_max time64 NSEC_HZ))
              (units NSEC_HZ (Timespec (SEC_MIN time64) 5)
               - units NSEC_HZ (Timespec 7 9))).
Proof.
  apply (timespec_sub_nearest_representable time64 NSEC_HZ
           time64_bits eq_refl);
    reflexivity.
Defined.

Lemma timespec_sub_monotone_witness :
  exists r r' : timespec,
    timespec_sub time64 NSEC_HZ (Timespec 1 0) (Timespec 0 5) = Ok r
    /\ timespec_sub time64 NSEC_HZ (Timespec 2 0) (Timespec 0 3) = Ok r'
    /\ units NSEC_HZ r <= units NSEC_HZ r'.
Proof.
  apply (timespec_sub_monotone time64 NSEC_HZ time64_bits eq_refl);
    try reflexivity; vm_compute; discriminate.
Defined.

Lemma unsaturated_result_exact_witness :
  units NSEC_HZ (Timespec 1 999999900) + units NSEC_HZ (Timespec 3 200)
  = units NSEC_HZ (Timespec 5 100).
Proof.
  apply (unsaturated_result_exact time64 NSEC_HZ time64_bits eq_refl);
    try reflexivity; discriminate.
Defined.

Lemma signed_zero_iff_equal_witness :
  timespec_sub time64 NSEC_HZ (Timespec 3 5) (Timespec 3 5)
  = Ok (Timespec 0 0)
  <-> Timespec 3 5 = Timespec 3 5.
Proof.
  apply (signed_zero_iff_equal time64 NSEC_HZ time64_bits eq_refl);
    reflexivity.
Defined.

Lemma unsigned_zero_iff_not_later_witness :
  timespec_sub utime64 NSEC_HZ (Timespec 1 0) (Timespec 2 0)
  = Ok (Timespec 0 0)
  <-> units NSEC_HZ (Timespec 1 0) <= units NSEC_HZ (Timespec 2 0).
Proof.
  apply (unsigned_zero_iff_not_later utime64 NSEC_HZ utime64_bits eq_refl);
    reflexivity.
Defined.

Lemma signed_result_sign_witness :
  exists r : timespec,
    timespec_sub time64 NSEC_HZ (Timespec 1 0) (Timespec 2 0) = Ok r
    /\ (tv_sec r < 0
        <-> units NSEC_HZ (Timespec 1 0) < units NSEC_HZ (Timespec 2 0)).
Proof.
  apply (signed_result_sign time64 NSEC_HZ time64_bits eq_refl);
    reflexivity.
Defined.

Lemma timespec_sub_translation_invariant_witness :
  timespec_sub time64 NSEC_HZ (Timespec 5 100) (Timespec 3 200)
  = timespec_sub time64 NSEC_HZ (Timespec 6 100) (Timespec 4 200).
Proof.
  apply (timespec_sub_translation_invariant time64 NSEC_HZ
           time64_bits eq_refl);
    reflexivity.
Defined.

Lemma timespec_sub_round_trip_witness :
  timespec_sub time64 NSEC_HZ (Timespec 5 100) (Timespec 1 999999900)
  = Ok (Timespec 3 200).
Proof.
  apply (timespec_sub_round_trip time64 NSEC_HZ time64_bits eq_refl
           (Timespec 5 100) (Timespec 3 200) (Timespec 1 999999900));
    try reflexivity; discriminate.
Defined.

Lemma signed_negation_witness :
  (exists r : timespec,
      timespec_sub time64 NSEC_HZ (Timespec 0 0) (Timespec 3 200) = Ok r
      /\ valid_timespec time64 NSEC_HZ r = true
      /\ units NSEC_HZ r = - units NSEC_HZ (Timespec 3 200))
  /\ timespec_sub time64 NSEC_HZ (Timespec 0 0) (timespec_min time64)
     = Ok (timespec_max time64 NSEC_HZ).
Proof.
  split.
  - apply (proj1 (signed_negation time64 NSEC_HZ time64_bits eq_refl
                    (Timespec 3 200) eq_refl eq_refl)).
    discriminate.
  - apply (proj2 (signed_negation time64 NSEC_HZ time64_bits eq_refl
                    (timespec_min time64) eq_refl eq_refl)).
    reflexivity.
Defined.

Lemma borrow_step_fallthrough_invariant_witness :
  in_range time64 5 = true /\ in_range time64 4 = true
  /\ 0 <= 999999900 < NSEC_HZ
  /\ (5 - 4) * NSEC_HZ + 999999900
     = units NSEC_HZ (Timespec 5 100) - units NSEC_HZ (Timespec 3 200).
Proof.
  apply (borrow_step_fallthrough_invariant time64 NSEC_HZ
           time64_bits eq_refl (Timespec 5 100) (Timespec 3 200));
    reflexivity.
Defined.

Lemma borrow_step_jump_sound_witness :
  tv_nsec (Timespec (-5) 0) < tv_nsec (Timespec (SEC_MAX time64) 1)
  /\ tv_sec (Timespec (SEC_MAX time64) 1) = SEC_MAX time64
  /\ units NSEC_HZ (Timespec (-5) 0)
     - units NSEC_HZ (Timespec (SEC_MAX time64) 1)
     < units NSEC_HZ (timespec_min time64).
Proof.
  apply (borrow_step_jump_sound time64 NSEC_HZ time64_bits eq_refl);
    reflexivity.
Defined.

Lemma timespec_sub_returns_when_nsec_difference_fits_witness :
  exists r : timespec,
    timespec_sub time64 NSEC_HZ (Timespec 0 (-1)) (Timespec 2 1500000000)
    = Ok r.
Proof.
  apply (timespec_sub_returns_when_nsec_difference_fits time64 NSEC_HZ
           time64_bits eq_refl);
    reflexivity.
Defined.

Lemma timespec_sub_passes_large_nsec_through_witness :
  timespec_sub time64 NSEC_HZ (Timespec 7 1500000000) (Timespec 2 0)
  = Ok (Timespec (7 - 2) (1500000000 - 0))
  /\ valid_timespec time64 NSEC_HZ (Timespec (7 - 2) (1500000000 - 0)) = false.
Proof.
  destruct (timespec_sub_passes_large_nsec_through time64 NSEC_HZ
              time64_bits (Timespec 7 1500000000) (Timespec 2 0))
    as [Hres Hinv].
  - split; vm_compute; discriminate.
  - reflexivity.
  - split; [exact Hres | apply Hinv; vm_compute; discriminate].
Defined.

Lemma timespec_sub_of_offsets_witness :
  timespec_sub time64 NSEC_HZ (Timespec 1 999999900) (Timespec 0 999999800)
  = timespec_sub time64 NSEC_HZ (Timespec 5 100) (Timespec 4 0).
Proof.
  apply (timespec_sub_of_offsets time64 NSEC_HZ time64_bits eq_refl
           (Timespec 5 100) (Timespec 3 200) (Timespec 4 0));
    try reflexivity; discriminate.
Defined.
